(** * Peer entity of the management server (management/server/peer/peer.go)

    A shallow embedding of the [peer] package: the [Peer], [PeerStatus],
    [PeerSystemMeta] and [Location] structs, the methods on them, and the
    part of the Go runtime they rely on (pointers into a store, byte slices
    with a shared backing array, and the [time] package). *)

From Stdlib Require Import ZArith String Lia Bool.
From stdpp Require Import base option list strings gmap.

Local Open Scope Z_scope.

(** ** The [time] package of the Go standard library

    An instant is a count of nanoseconds since the zero [Time]
    (January 1, year 1, 00:00 UTC) together with the location it is
    displayed in.  A [Duration] is an [int64] count of nanoseconds.
    [Add] moves the instant, [Sub] returns the difference of two instants
    and, as the library documents, the largest (smallest) [Duration] when
    the difference does not fit; [UTC] keeps the instant and sets the
    location.  The clock reading of [time.Now()] is an input of the
    methods that call it. *)
Module time.

Definition Duration := Z.

Definition minDuration : Duration := - 2 ^ 63.
Definition maxDuration : Duration := 2 ^ 63 - 1.

Definition Nanosecond : Duration := 1.
Definition Second : Duration := 1000000000 * Nanosecond.
Definition Minute : Duration := 60 * Second.
Definition Hour : Duration := 60 * Minute.

Inductive Location := UTCLoc | Local.

Record Time := mkTime { instant : Z; loc : Location }.

(** The zero value [time.Time{}]. *)
Definition zero : Time := mkTime 0 UTCLoc.

Definition Add (t : Time) (d : Duration) : Time :=
  mkTime (instant t + d) (loc t).

(** The nearest [Duration] to an exact difference. *)
Definition saturate (d : Z) : Duration :=
  if d <? minDuration then minDuration
  else if maxDuration <? d then maxDuration
  else d.

Definition Sub (t u : Time) : Duration :=
  saturate (instant t - instant u).

Definition UTC (t : Time) : Time := mkTime (instant t) UTCLoc.

Definition in_range (d : Z) : Prop := minDuration <= d <= maxDuration.

End time.

(** ** Data model *)

(** A pointer is an address in the store; [None] is the nil pointer. *)
Abbreviation addr := nat (only parsing).

(** The header of a byte slice: a window on a backing array.  Assigning
    a slice copies the header, not the array. *)
Record slice := mkSlice {
  sl_array : addr;   (* the backing array *)
  sl_off : nat;      (* index of element 0 in the backing array *)
  sl_len : nat;
  sl_cap : nat
}.

(** [net.IP] is [[]byte]; the nil slice is [None]. *)
Module net.
Definition IP := option slice.
End net.

Record PeerStatus := mkPeerStatus {
  LastSeen : time.Time;
  Connected : bool;
  LoginExpired_flag : bool;   (* field [LoginExpired]; the method has the name *)
  RequiresApproval : bool
}.

Record Location := mkLocation {
  ConnectionIP : net.IP;
  CountryCode : string;
  CityName : string;
  GeoNameID : N
}.

Record PeerSystemMeta := mkPeerSystemMeta {
  Hostname : string;
  GoOS : string;
  Kernel : string;
  Core : string;
  Platform : string;
  OS : string;
  OSVersion : string;
  WtVersion : string;
  UIVersion : string;
  KernelVersion : string
}.

Record Peer := mkPeer {
  ID : string;
  AccountID : string;
  Key : string;
  SetupKey : string;
  IP : net.IP;
  Meta : PeerSystemMeta;
  Name : string;
  DNSLabel : string;
  Status : option addr;       (* [*PeerStatus] *)
  UserID : string;
  SSHKey : string;
  SSHEnabled : bool;
  LoginExpirationEnabled : bool;
  LastLogin : time.Time;
  Ephemeral : bool;
  Location_field : Location   (* field [Location] *)
}.

(** Field assignments [x.F = v]. *)
Definition set_UIVersion (v : string) (m : PeerSystemMeta) : PeerSystemMeta :=
  mkPeerSystemMeta (Hostname m) (GoOS m) (Kernel m) (Core m) (Platform m)
    (OS m) (OSVersion m) (WtVersion m) v (KernelVersion m).

Definition set_Connected (v : bool) (s : PeerStatus) : PeerStatus :=
  mkPeerStatus (LastSeen s) v (LoginExpired_flag s) (RequiresApproval s).

Definition set_LoginExpired (v : bool) (s : PeerStatus) : PeerStatus :=
  mkPeerStatus (LastSeen s) (Connected s) v (RequiresApproval s).

Definition set_Meta (v : PeerSystemMeta) (p : Peer) : Peer :=
  mkPeer (ID p) (AccountID p) (Key p) (SetupKey p) (IP p) v (Name p)
    (DNSLabel p) (Status p) (UserID p) (SSHKey p) (SSHEnabled p)
    (LoginExpirationEnabled p) (LastLogin p) (Ephemeral p) (Location_field p).

Definition set_Status (v : option addr) (p : Peer) : Peer :=
  mkPeer (ID p) (AccountID p) (Key p) (SetupKey p) (IP p) (Meta p)
    (Name p) (DNSLabel p) v (UserID p) (SSHKey p) (SSHEnabled p)
    (LoginExpirationEnabled p) (LastLogin p) (Ephemeral p) (Location_field p).

Definition set_LastLogin (v : time.Time) (p : Peer) : Peer :=
  mkPeer (ID p) (AccountID p) (Key p) (SetupKey p) (IP p) (Meta p)
    (Name p) (DNSLabel p) (Status p) (UserID p) (SSHKey p) (SSHEnabled p)
    (LoginExpirationEnabled p) v (Ephemeral p) (Location_field p).

(** ** The store

    Objects reached through pointers live in a store; an address is the
    index of the object, and an allocation appends.  Three kinds of
    objects are allocated by this package or reachable from a [Peer]. *)
Record Heap := mkHeap {
  peers : list Peer;
  statuses : list PeerStatus;
  arrays : list (list Byte.byte)
}.

(** A computation reads and writes the store and may panic ([None]). *)
Definition M (A : Type) : Type := Heap -> option (A * Heap).

Definition ret {A} (a : A) : M A := fun h => Some (a, h).

Definition bind {A B} (m : M A) (k : A -> M B) : M B :=
  fun h => match m h with
           | Some (a, h') => k a h'
           | None => None
           end.

Notation "x <- m ;; k" := (bind m (fun x => k))
  (at level 100, m at next level, right associativity).
Notation "m ;;; k" := (bind m (fun _ => k))
  (at level 100, right associativity).

(** [*p] for a [*Peer]; a nil or dangling pointer panics. *)
Definition load_peer (p : addr) : M Peer :=
  fun h => match peers h !! p with
           | Some x => Some (x, h)
           | None => None
           end.

Definition store_peer (p : addr) (x : Peer) : M unit :=
  fun h => match peers h !! p with
           | Some _ => Some (tt, mkHeap (<[p:=x]> (peers h)) (statuses h) (arrays h))
           | None => None
           end.

(** [&Peer{...}] *)
Definition new_peer (x : Peer) : M addr :=
  fun h => Some (length (peers h),
                 mkHeap (peers h ++ [x]) (statuses h) (arrays h)).

Definition load_status (s : option addr) : M PeerStatus :=
  fun h => match s with
           | Some a => match statuses h !! a with
                       | Some v => Some (v, h)
                       | None => None
                       end
           | None => None
           end.

Definition store_status (s : option addr) (v : PeerStatus) : M unit :=
  fun h => match s with
           | Some a => match statuses h !! a with
                       | Some _ => Some (tt, mkHeap (peers h) (<[a:=v]> (statuses h)) (arrays h))
                       | None => None
                       end
           | None => None
           end.

(** [&PeerStatus{...}] *)
Definition new_status (v : PeerStatus) : M addr :=
  fun h => Some (length (statuses h),
                 mkHeap (peers h) (statuses h ++ [v]) (arrays h)).

(** [s[i]] and [s[i] = b] on a byte slice; out of range (or nil) panics. *)
Definition slice_get (s : net.IP) (i : nat) : M Byte.byte :=
  fun h => match s with
           | Some sl =>
               if (i <? sl_len sl)%nat then
                 match arrays h !! sl_array sl with
                 | Some a => match a !! (sl_off sl + i)%nat with
                             | Some b => Some (b, h)
                             | None => None
                             end
                 | None => None
                 end
               else None
           | None => None
           end.

Definition slice_set (s : net.IP) (i : nat) (b : Byte.byte) : M unit :=
  fun h => match s with
           | Some sl =>
               if (i <? sl_len sl)%nat then
                 match arrays h !! sl_array sl with
                 | Some a =>
                     if (sl_off sl + i <? length a)%nat then
                       Some (tt, mkHeap (peers h) (statuses h)
                                   (<[sl_array sl := <[(sl_off sl + i)%nat := b]> a]> (arrays h)))
                     else None
                 | None => None
                 end
               else None
           | None => None
           end.

(** ** The methods *)

(** [func (p PeerSystemMeta) isEqual(other PeerSystemMeta) bool] *)
Definition isEqual (p other : PeerSystemMeta) : bool :=
  String.eqb (Hostname p) (Hostname other) &&
  String.eqb (GoOS p) (GoOS other) &&
  String.eqb (Kernel p) (Kernel other) &&
  String.eqb (KernelVersion p) (KernelVersion other) &&
  String.eqb (Core p) (Core other) &&
  String.eqb (Platform p) (Platform other) &&
  String.eqb (OS p) (OS other) &&
  String.eqb (OSVersion p) (OSVersion other) &&
  String.eqb (WtVersion p) (WtVersion other) &&
  String.eqb (UIVersion p) (UIVersion other).

(** [func (p *Peer) AddedWithSSOLogin() bool] *)
Definition AddedWithSSOLogin (p : addr) : M bool :=
  x <- load_peer p ;;
  ret (negb (String.eqb (UserID x) "")).

(** [func (p *PeerStatus) Copy() *PeerStatus] *)
Definition PeerStatus_Copy (p : option addr) : M (option addr) :=
  s <- load_status p ;;
  a <- new_status (mkPeerStatus (LastSeen s) (Connected s)
                     (LoginExpired_flag s) (RequiresApproval s)) ;;
  ret (Some a).

(** [func (p *Peer) Copy() *Peer] *)
Definition Copy (p : addr) : M addr :=
  x <- load_peer p ;;
  peerStatus <- match Status x with
                | Some _ => PeerStatus_Copy (Status x)
                | None => ret (Status x)
                end ;;
  new_peer (mkPeer (ID x) (AccountID x) (Key x) (SetupKey x) (IP x)
              (Meta x) (Name x) (DNSLabel x) peerStatus (UserID x) (SSHKey x)
              (SSHEnabled x) (LoginExpirationEnabled x) (LastLogin x)
              (Ephemeral x) (Location_field x)).

(** The first statement of [UpdateMetaIfNew]:
    [if meta.UIVersion == "" { meta.UIVersion = p.Meta.UIVersion }];
    [meta] is passed by value, so the caller's struct is not touched. *)
Definition adjust_UIVersion (stored meta : PeerSystemMeta) : PeerSystemMeta :=
  if String.eqb (UIVersion meta) ""
  then set_UIVersion (UIVersion stored) meta
  else meta.

(** [func (p *Peer) UpdateMetaIfNew(meta PeerSystemMeta) bool] *)
Definition UpdateMetaIfNew (p : addr) (meta : PeerSystemMeta) : M bool :=
  x <- load_peer p ;;
  let meta := adjust_UIVersion (Meta x) meta in
  if isEqual (Meta x) meta then ret false
  else store_peer p (set_Meta meta x) ;;; ret true.

(** [func (p *Peer) MarkLoginExpired(expired bool)] *)
Definition MarkLoginExpired (p : addr) (expired : bool) : M unit :=
  x <- load_peer p ;;
  newStatus <- PeerStatus_Copy (Status x) ;;
  s <- load_status newStatus ;;
  store_status newStatus (set_LoginExpired expired s) ;;;
  (if expired
   then s <- load_status newStatus ;;
        store_status newStatus (set_Connected false s)
   else ret tt) ;;;
  x <- load_peer p ;;
  store_peer p (set_Status newStatus x).

(** [func (p *Peer) LoginExpired(expiresIn time.Duration) (bool, time.Duration)];
    [now] is the reading of [time.Now()]. *)
Definition LoginExpired (now : time.Time) (p : addr) (expiresIn : time.Duration)
  : M (bool * time.Duration) :=
  sso <- AddedWithSSOLogin p ;;
  x <- load_peer p ;;
  if negb sso || negb (LoginExpirationEnabled x) then ret (false, 0)
  else
    let expiresAt := time.Add (LastLogin x) expiresIn in
    let timeLeft := time.Sub expiresAt now in
    ret (timeLeft <=? 0, timeLeft).

(** [func (p *Peer) FQDN(dnsDomain string) string];
    [fmt.Sprintf("%s.%s", a, b)] is [a ++ "." ++ b]. *)
Definition FQDN (p : addr) (dnsDomain : string) : M string :=
  if String.eqb dnsDomain "" then ret ""%string
  else x <- load_peer p ;; ret (DNSLabel x ++ "." ++ dnsDomain)%string.

(** [func (p *Peer) UpdateLastLogin() *Peer];
    [now] is the reading of [time.Now()]. *)
Definition UpdateLastLogin (now : time.Time) (p : addr) : M addr :=
  x <- load_peer p ;;
  store_peer p (set_LastLogin (time.UTC now) x) ;;;
  x <- load_peer p ;;
  newStatus <- PeerStatus_Copy (Status x) ;;
  s <- load_status newStatus ;;
  store_status newStatus (set_LoginExpired false s) ;;;
  x <- load_peer p ;;
  store_peer p (set_Status newStatus x) ;;;
  ret p.

(** The values of the [map[string]any] that [EventMeta] builds: a
    string or a [net.IP]. *)
Inductive any :=
  | any_string (s : string)
  | any_IP (ip : net.IP).

(** [func (p *Peer) EventMeta(dnsDomain string) map[string]any];
    the elements of the map literal are evaluated in order.  The map is
    new and no one else holds it, so it is returned as a value. *)
Definition EventMeta (p : addr) (dnsDomain : string) : M (gmap string any) :=
  x <- load_peer p ;;
  fqdn <- FQDN p dnsDomain ;;
  x' <- load_peer p ;;
  ret (<["ip"%string := any_IP (IP x')]>
         (<["fqdn"%string := any_string fqdn]>
            (<["name"%string := any_string (Name x)]> ∅))).

(** ** Vocabulary of the properties *)

(** The store after an update of its peers. *)
Definition with_peers (f : list Peer -> list Peer) (h : Heap) : Heap :=
  mkHeap (f (peers h)) (statuses h) (arrays h).

(** Field by field, over the ten fields of [PeerSystemMeta]. *)
Definition fieldwise_equal (a b : PeerSystemMeta) : Prop :=
  Hostname a = Hostname b /\ GoOS a = GoOS b /\ Kernel a = Kernel b /\
  Core a = Core b /\ Platform a = Platform b /\ OS a = OS b /\
  OSVersion a = OSVersion b /\ WtVersion a = WtVersion b /\
  UIVersion a = UIVersion b /\ KernelVersion a = KernelVersion b.

(** The nine fields other than [UIVersion]. *)
Definition equal_but_UIVersion (a b : PeerSystemMeta) : Prop :=
  Hostname a = Hostname b /\ GoOS a = GoOS b /\ Kernel a = Kernel b /\
  Core a = Core b /\ Platform a = Platform b /\ OS a = OS b /\
  OSVersion a = OSVersion b /\ WtVersion a = WtVersion b /\
  KernelVersion a = KernelVersion b.

(** What a holder of the pointer [q] can read: the fields of the struct
    (the [Status] pointer apart), the snapshot [Status] points to, and
    the bytes of the two address slices. *)
Definition slice_bytes (s : net.IP) (h : Heap) : option (list Byte.byte) :=
  match s with
  | None => Some []
  | Some sl =>
      match arrays h !! sl_array sl with
      | Some a => Some (take (sl_len sl) (drop (sl_off sl) a))
      | None => None
      end
  end.

Record view := mkView {
  v_fields : Peer;
  v_status : option PeerStatus;
  v_ip : option (list Byte.byte);
  v_connection_ip : option (list Byte.byte)
}.

Definition observe (q : addr) (h : Heap) : option view :=
  match peers h !! q with
  | Some x =>
      Some (mkView (set_Status None x)
              (match Status x with
               | Some a => statuses h !! a
               | None => None
               end)
              (slice_bytes (IP x) h)
              (slice_bytes (ConnectionIP (Location_field x)) h))
  | None => None
  end.

(** The assignments a holder of a [*Peer] can make to it. *)
Inductive mutation :=
  | Assign (f : Peer -> Peer)                 (* [q.F = v], any fields [F] *)
  | AssignStatus (f : PeerStatus -> PeerStatus) (* [q.Status.F = v] *)
  | AssignIPByte (i : nat) (b : Byte.byte)    (* [q.IP[i] = b] *)
  | AssignConnectionIPByte (i : nat) (b : Byte.byte).
                                              (* [q.Location.ConnectionIP[i] = b] *)

Definition mutate (q : addr) (m : mutation) : M unit :=
  x <- load_peer q ;;
  match m with
  | Assign f => store_peer q (f x)
  | AssignStatus f =>
      s <- load_status (Status x) ;; store_status (Status x) (f s)
  | AssignIPByte i b => slice_set (IP x) i b
  | AssignConnectionIPByte i b =>
      slice_set (ConnectionIP (Location_field x)) i b
  end.

Definition writes_slice_element (m : mutation) : bool :=
  match m with
  | AssignIPByte _ _ | AssignConnectionIPByte _ _ => true
  | _ => false
  end.

(** Independence of a peer and its copy under every assignment. *)
Definition Copy_independent (h : Heap) (p : addr) : Prop :=
  forall c h1, Copy p h = Some (c, h1) ->
  forall m h2,
    (mutate c m h1 = Some (tt, h2) -> observe p h2 = observe p h1) /\
    (mutate p m h1 = Some (tt, h2) -> observe c h2 = observe c h1).

(** ** A store with one peer *)

Definition ex_meta : PeerSystemMeta :=
  mkPeerSystemMeta "host-a" "linux" "Linux" "22.04" "x86_64" "Ubuntu"
    "22.04" "0.24.0" "1.2" "5.15.0".

Definition ex_status : PeerStatus :=
  mkPeerStatus (time.mkTime (63839660000 * time.Second) time.UTCLoc) true false false.

Definition ex_peer : Peer :=
  mkPeer "peer-1" "account-1" "pubkey" "" (Some (mkSlice 0 0 4 4)%nat) ex_meta
    "host-a" "host-a" (Some 0%nat) "user-1" "" false true
    (time.mkTime (63839664000 * time.Second) time.UTCLoc) false
    (mkLocation None "" "" 0%N).

(** 100.64.0.1 *)
Definition ex_heap : Heap :=
  mkHeap [ex_peer] [ex_status] [[Byte.x64; Byte.x40; Byte.x00; Byte.x01]].

(** The same peer with the zero [LastLogin], and a clock in our days. *)
Definition never_logged_in : Heap :=
  mkHeap [set_LastLogin time.zero ex_peer] [ex_status]
    [[Byte.x64; Byte.x40; Byte.x00; Byte.x01]].

Definition a_clock : time.Time :=
  time.mkTime (63900000000 * time.Second) time.Local.

(** ** Vocabulary of the further properties *)

(** Every object of [h] is in [h'] with the content it had, the peer at
    [p] apart. *)
Definition preserved_but (p : addr) (h h' : Heap) : Prop :=
  (forall q y, q <> p -> peers h !! q = Some y -> peers h' !! q = Some y) /\
  (forall a s, statuses h !! a = Some s -> statuses h' !! a = Some s) /\
  arrays h' = arrays h.

(** The [Status] pointer of a peer, when not nil, points to a snapshot. *)
Definition status_allocated (h : Heap) (x : Peer) : Prop :=
  forall a, Status x = Some a -> is_Some (statuses h !! a).

(** A caller that reports metadata several times in a row. *)
Fixpoint report_all (p : addr) (ms : list PeerSystemMeta) : M (list bool) :=
  match ms with
  | [] => ret []
  | m :: ms' =>
      b <- UpdateMetaIfNew p m ;;
      bs <- report_all p ms' ;;
      ret (b :: bs)
  end.

(** ** Running the primitives *)

Lemma lookup_snoc {A} (l : list A) (x : A) : (l ++ [x]) !! length l = Some x.
Proof. induction l; simpl; auto. Qed.

Lemma insert_snoc {A} (l : list A) (x y : A) :
  <[length l := y]> (l ++ [x]) = l ++ [y].
Proof. induction l; simpl; [done | by f_equal]. Qed.

Lemma lookup_snoc_old {A} (l : list A) (x : A) (i : nat) (v : A) :
  l !! i = Some v -> (l ++ [x]) !! i = Some v.
Proof. intros H. rewrite lookup_app_l; [done | by eapply lookup_lt_Some]. Qed.

Lemma lookup_fresh {A} (l : list A) : l !! length l = None.
Proof. by apply lookup_ge_None. Qed.

Lemma allocated_not_fresh {A} (l : list A) (i : nat) (v : A) :
  l !! i = Some v -> i <> length l.
Proof. intros H ->. by rewrite lookup_fresh in H. Qed.

Lemma PeerStatus_eta s :
  mkPeerStatus (LastSeen s) (Connected s) (LoginExpired_flag s) (RequiresApproval s) = s.
Proof. by destruct s. Qed.

(** ** Metadata equality *)

Lemma fieldwise_equal_eq a b : fieldwise_equal a b <-> a = b.
Proof.
  split; [| intros ->; repeat split].
  destruct a, b; unfold fieldwise_equal; simpl.
  intros (-> & -> & -> & -> & -> & -> & -> & -> & -> & ->); reflexivity.
Qed.

Lemma isEqual_fieldwise a b : isEqual a b = true <-> fieldwise_equal b a.
Proof.
  unfold isEqual, fieldwise_equal.
  rewrite !andb_true_iff, !String.eqb_eq. intuition congruence.
Qed.

Lemma isEqual_true a b : isEqual a b = true <-> b = a.
Proof. by rewrite isEqual_fieldwise, fieldwise_equal_eq. Qed.

Lemma isEqual_false a b : isEqual a b = false <-> b <> a.
Proof. rewrite <- isEqual_true. destruct (isEqual a b); intuition congruence. Qed.

Lemma adjust_UIVersion_empty stored m :
  UIVersion m = ""%string ->
  adjust_UIVersion stored m = set_UIVersion (UIVersion stored) m.
Proof. unfold adjust_UIVersion. by intros ->. Qed.

Lemma adjust_UIVersion_nonempty stored m :
  UIVersion m <> ""%string -> adjust_UIVersion stored m = m.
Proof.
  unfold adjust_UIVersion. intros H.
  by destruct (String.eqb_spec (UIVersion m) "").
Qed.

(** Adjusting against the adjusted value changes nothing more. *)
Lemma adjust_UIVersion_idem stored m :
  adjust_UIVersion (adjust_UIVersion stored m) m = adjust_UIVersion stored m.
Proof.
  unfold adjust_UIVersion.
  destruct (String.eqb_spec (UIVersion m) ""); [| done].
  by destruct m.
Qed.

(** What a call of [UpdateMetaIfNew] does, in one equation. *)
Lemma UpdateMetaIfNew_run h p x m :
  peers h !! p = Some x ->
  UpdateMetaIfNew p m h =
    if isEqual (Meta x) (adjust_UIVersion (Meta x) m)
    then Some (false, h)
    else Some (true, with_peers (fun l => <[p := set_Meta (adjust_UIVersion (Meta x) m) x]> l) h).
Proof.
  intros Hp. unfold UpdateMetaIfNew, bind, load_peer, store_peer, ret.
  rewrite Hp. destruct (isEqual _ _); [done |]. by rewrite Hp.
Qed.

(** ** Properties of [UpdateMetaIfNew] *)

(** C2: an incoming [UIVersion] that is empty is replaced by the stored
    one before the comparison and the store, so the stored [UIVersion]
    survives the call; when the other nine fields equal the stored ones
    the call returns [false] and changes nothing.  A non-empty incoming
    [UIVersion] that differs from the stored one is stored, and the call
    returns [true]. *)
Theorem UpdateMetaIfNew_keeps_UIVersion (h : Heap) (p : addr) (x : Peer)
    (m : PeerSystemMeta) :
  peers h !! p = Some x ->
  exists b h' x',
    UpdateMetaIfNew p m h = Some (b, h') /\ peers h' !! p = Some x' /\
    b = negb (isEqual (Meta x) (adjust_UIVersion (Meta x) m)) /\
    (b = true -> Meta x' = adjust_UIVersion (Meta x) m) /\
    (UIVersion m = ""%string ->
       adjust_UIVersion (Meta x) m = set_UIVersion (UIVersion (Meta x)) m /\
       UIVersion (Meta x') = UIVersion (Meta x) /\
       (equal_but_UIVersion m (Meta x) -> b = false /\ h' = h)) /\
    (UIVersion m <> ""%string -> UIVersion m <> UIVersion (Meta x) ->
       b = true /\ Meta x' = m /\ UIVersion (Meta x') = UIVersion m).
Proof.
  intros Hp. rewrite (UpdateMetaIfNew_run h p x m Hp).
  destruct (isEqual (Meta x) (adjust_UIVersion (Meta x) m)) eqn:E.
  - exists false, h, x. apply isEqual_true in E.
    split; [done |]. split; [done |]. split; [done |].
    split; [discriminate |]. split.
    + intros He. split; [by apply adjust_UIVersion_empty |]. by split.
    + intros Hne Hd. rewrite adjust_UIVersion_nonempty in E by done.
      exfalso. apply Hd. by rewrite E.
  - exists true, (with_peers (fun l => <[p := set_Meta (adjust_UIVersion (Meta x) m) x]> l) h),
      (set_Meta (adjust_UIVersion (Meta x) m) x).
    apply isEqual_false in E.
    split; [done |]. split.
    { simpl. apply list_lookup_insert_eq. by eapply lookup_lt_Some. }
    split; [done |]. split; [done |]. split.
    + intros He. rewrite (adjust_UIVersion_empty _ _ He) in *.
      split; [done |]. split; [done |].
      intros Hs. exfalso. apply E. apply fieldwise_equal_eq.
      unfold equal_but_UIVersion in Hs. unfold fieldwise_equal. simpl. tauto.
    + intros Hne Hd. by rewrite adjust_UIVersion_nonempty.
Qed.

(** C3: the adjusted metadata is the incoming one with an empty
    [UIVersion] replaced by the stored one.  When it equals the stored
    metadata on all ten fields the call returns [false] and leaves the
    store as it is; otherwise it returns [true] and the peer holds the
    adjusted metadata, field by field, as its [Meta], every other field
    of the peer and the rest of the store being as before. *)
Theorem UpdateMetaIfNew_spec (h : Heap) (p : addr) (x : Peer)
    (m : PeerSystemMeta) :
  peers h !! p = Some x ->
  let adjusted :=
    mkPeerSystemMeta (Hostname m) (GoOS m) (Kernel m) (Core m) (Platform m)
      (OS m) (OSVersion m) (WtVersion m)
      (if String.eqb (UIVersion m) "" then UIVersion (Meta x) else UIVersion m)
      (KernelVersion m) in
  exists b h' x',
    UpdateMetaIfNew p m h = Some (b, h') /\ peers h' !! p = Some x' /\
    (fieldwise_equal adjusted (Meta x) ->
       b = false /\ h' = h /\ x' = x) /\
    (~ fieldwise_equal adjusted (Meta x) ->
       b = true /\ Meta x' = adjusted /\
       Hostname (Meta x') = Hostname m /\ GoOS (Meta x') = GoOS m /\
       Kernel (Meta x') = Kernel m /\ Core (Meta x') = Core m /\
       Platform (Meta x') = Platform m /\ OS (Meta x') = OS m /\
       OSVersion (Meta x') = OSVersion m /\ WtVersion (Meta x') = WtVersion m /\
       KernelVersion (Meta x') = KernelVersion m /\
       (UIVersion m = ""%string -> UIVersion (Meta x') = UIVersion (Meta x)) /\
       (UIVersion m <> ""%string -> UIVersion (Meta x') = UIVersion m) /\
       x' = mkPeer (ID x) (AccountID x) (Key x) (SetupKey x) (IP x) adjusted
              (Name x) (DNSLabel x) (Status x) (UserID x) (SSHKey x)
              (SSHEnabled x) (LoginExpirationEnabled x) (LastLogin x)
              (Ephemeral x) (Location_field x) /\
       (forall q y, q <> p -> peers h !! q = Some y -> peers h' !! q = Some y) /\
       statuses h' = statuses h /\ arrays h' = arrays h).
Proof.
  intros Hp adjusted.
  assert (Hadj : adjust_UIVersion (Meta x) m = adjusted).
  { unfold adjust_UIVersion, adjusted.
    destruct (String.eqb (UIVersion m) ""); [done | by destruct m]. }
  rewrite (UpdateMetaIfNew_run h p x m Hp), Hadj.
  destruct (isEqual (Meta x) adjusted) eqn:E.
  - apply isEqual_fieldwise in E. exists false, h, x.
    split; [done |]. split; [done |]. split; [done |].
    intros Hn. contradiction.
  - exists true, (with_peers (fun l => <[p := set_Meta adjusted x]> l) h),
      (set_Meta adjusted x).
    split; [done |]. split.
    { simpl. apply list_lookup_insert_eq. by eapply lookup_lt_Some. }
    split.
    { intros Heq. apply isEqual_fieldwise in Heq. congruence. }
    intros _. split; [done |]. split; [done |].
    cbn [Meta set_Meta adjusted Hostname GoOS Kernel Core Platform OS OSVersion
         WtVersion KernelVersion UIVersion].
    do 9 (split; [done |]).
    split. { intros ->. done. }
    split. { intros Hne. by destruct (String.eqb_spec (UIVersion m) ""). }
    split; [done |]. split; [| done].
    intros q y Hq Hy. cbn [with_peers peers]. by rewrite list_lookup_insert_ne.
Qed.

(** C4: of two calls in a row with the same metadata, the first stores
    the adjusted metadata exactly when it differs from the stored one,
    and the second returns [false] and changes nothing. *)
Theorem UpdateMetaIfNew_twice (h : Heap) (p : addr) (x : Peer)
    (m : PeerSystemMeta) :
  peers h !! p = Some x ->
  exists b h1 x1,
    UpdateMetaIfNew p m h = Some (b, h1) /\
    (b = true <-> adjust_UIVersion (Meta x) m <> Meta x) /\
    (b = false -> h1 = h) /\
    peers h1 !! p = Some x1 /\ Meta x1 = adjust_UIVersion (Meta x) m /\
    UpdateMetaIfNew p m h1 = Some (false, h1).
Proof.
  intros Hp. rewrite (UpdateMetaIfNew_run h p x m Hp).
  destruct (isEqual (Meta x) (adjust_UIVersion (Meta x) m)) eqn:E.
  - apply isEqual_true in E. exists false, h, x.
    repeat split; try done.
    rewrite (UpdateMetaIfNew_run h p x m Hp).
    assert (E' : isEqual (Meta x) (adjust_UIVersion (Meta x) m) = true)
      by by apply isEqual_true.
    by rewrite E'.
  - apply isEqual_false in E.
    set (x1 := set_Meta (adjust_UIVersion (Meta x) m) x).
    set (h1 := with_peers (fun l => <[p := x1]> l) h).
    assert (Hp1 : peers h1 !! p = Some x1).
    { simpl. apply list_lookup_insert_eq. by eapply lookup_lt_Some. }
    exists true, h1, x1. repeat split; try done.
    rewrite (UpdateMetaIfNew_run h1 p x1 m Hp1). simpl.
    rewrite adjust_UIVersion_idem.
    assert (E' : isEqual (adjust_UIVersion (Meta x) m) (adjust_UIVersion (Meta x) m) = true)
      by by apply isEqual_true.
    by rewrite E'.
Qed.

(** ** Status transitions *)

Ltac unfold_M :=
  cbv [bind ret load_peer store_peer new_peer load_status store_status
       new_status PeerStatus_Copy AddedWithSSOLogin];
  cbn [peers statuses arrays].

(** Reads and writes at the address just allocated, and at an address
    whose content is known. *)
Ltac at_fresh :=
  repeat (progress (cbn [peers statuses arrays Status set_LastLogin set_Status];
                    rewrite ?lookup_snoc, ?insert_snoc)).

Ltac run_with Hp :=
  repeat (progress (at_fresh; rewrite ?Hp, ?list_lookup_insert_eq by done)).

(** What [MarkLoginExpired] does to the store, in one equation: the new
    snapshot is appended, and the peer points to it. *)
Lemma MarkLoginExpired_run h p x a s expired :
  peers h !! p = Some x -> Status x = Some a -> statuses h !! a = Some s ->
  MarkLoginExpired p expired h =
    Some (tt, mkHeap (<[p := set_Status (Some (length (statuses h))) x]> (peers h))
                (statuses h ++
                   [mkPeerStatus (LastSeen s) (if expired then false else Connected s)
                      expired (RequiresApproval s)])
                (arrays h)).
Proof.
  intros Hp Hs Ha. unfold MarkLoginExpired. unfold_M.
  rewrite Hp, Hs, Ha. at_fresh.
  destruct expired; by run_with Hp.
Qed.

(** The same for [UpdateLastLogin]. *)
Lemma UpdateLastLogin_run now h p x a s :
  peers h !! p = Some x -> Status x = Some a -> statuses h !! a = Some s ->
  UpdateLastLogin now p h =
    Some (p, mkHeap (<[p := set_Status (Some (length (statuses h)))
                              (set_LastLogin (time.UTC now) x)]> (peers h))
               (statuses h ++
                  [mkPeerStatus (LastSeen s) (Connected s) false (RequiresApproval s)])
               (arrays h)).
Proof.
  intros Hp Hs Ha. unfold UpdateLastLogin. unfold_M.
  assert (Hlt : (p < length (peers h))%nat) by by eapply lookup_lt_Some.
  run_with Hp. rewrite Hs, Ha. run_with Hp.
  by rewrite list_insert_insert_eq.
Qed.

(** C5: with a non-nil [Status], [MarkLoginExpired expired] makes the
    [Status] of the peer point to a snapshot that did not exist, a copy
    of the current one with [LoginExpired] set to [expired] and with
    [Connected] set to [false] when [expired] holds; no other field of
    the peer changes.  The snapshot held before, like every snapshot
    allocated before, keeps its content.  In particular a connected
    status marked expired gives a new status that is not connected and is
    expired. *)
Theorem MarkLoginExpired_spec (h : Heap) (p : addr) (x : Peer) (a : addr)
    (s : PeerStatus) (expired : bool) :
  peers h !! p = Some x -> Status x = Some a -> statuses h !! a = Some s ->
  exists h' x' a' s',
    MarkLoginExpired p expired h = Some (tt, h') /\
    peers h' !! p = Some x' /\
    Status x' = Some a' /\
    load_status (Status x') h' = Some (s', h') /\
    x' = mkPeer (ID x) (AccountID x) (Key x) (SetupKey x) (IP x) (Meta x)
           (Name x) (DNSLabel x) (Some a') (UserID x) (SSHKey x)
           (SSHEnabled x) (LoginExpirationEnabled x) (LastLogin x)
           (Ephemeral x) (Location_field x) /\
    statuses h !! a' = None /\ a' <> a /\
    statuses h' !! a' = Some s' /\
    s' = mkPeerStatus (LastSeen s) (if expired then false else Connected s)
           expired (RequiresApproval s) /\
    LoginExpired_flag s' = expired /\
    (expired = true -> Connected s' = false) /\
    (expired = false -> Connected s' = Connected s) /\
    statuses h' !! a = Some s /\
    (forall b v, statuses h !! b = Some v -> statuses h' !! b = Some v) /\
    (expired = true -> Connected s = true ->
       Connected s' = false /\ LoginExpired_flag s' = true).
Proof.
  intros Hp Hs Ha. rewrite (MarkLoginExpired_run h p x a s expired Hp Hs Ha).
  eexists _, _, (length (statuses h)), _.
  split; [reflexivity |]. cbn [peers statuses].
  split. { apply list_lookup_insert_eq. by eapply lookup_lt_Some. }
  split; [reflexivity |].
  split. { unfold load_status. cbn [Status set_Status statuses]. by rewrite lookup_snoc. }
  split; [reflexivity |].
  split; [apply lookup_fresh |].
  split. { intros E. symmetry in E. revert E. by eapply allocated_not_fresh. }
  split; [apply lookup_snoc |]. split; [reflexivity |].
  split; [reflexivity |].
  split; [by intros -> |]. split; [by intros -> |].
  split; [by apply lookup_snoc_old |].
  split. { intros b v Hb. by apply lookup_snoc_old. }
  by intros -> _.
Qed.


(** C10: the snapshots installed by [MarkLoginExpired] and by
    [UpdateLastLogin] carry the [LastSeen] and [RequiresApproval] of the
    snapshot before; [MarkLoginExpired false] and [UpdateLastLogin] carry
    its [Connected] flag as well. *)
Theorem status_transitions_frame (now : time.Time) (h : Heap) (p : addr)
    (x : Peer) (a : addr) (s : PeerStatus) :
  peers h !! p = Some x -> Status x = Some a -> statuses h !! a = Some s ->
  (forall expired, exists h' x' s',
     MarkLoginExpired p expired h = Some (tt, h') /\
     peers h' !! p = Some x' /\ load_status (Status x') h' = Some (s', h') /\
     LastSeen s' = LastSeen s /\ RequiresApproval s' = RequiresApproval s /\
     (expired = false -> Connected s' = Connected s)) /\
  (exists h' x' s',
     UpdateLastLogin now p h = Some (p, h') /\
     peers h' !! p = Some x' /\ load_status (Status x') h' = Some (s', h') /\
     LastSeen s' = LastSeen s /\ RequiresApproval s' = RequiresApproval s /\
     Connected s' = Connected s).
Proof.
  intros Hp Hs Ha.
  assert (Hlt : (p < length (peers h))%nat) by by eapply lookup_lt_Some.
  split.
  - intros expired. rewrite (MarkLoginExpired_run h p x a s expired Hp Hs Ha).
    eexists _, _, _. split; [reflexivity |]. cbn [peers].
    split; [by apply list_lookup_insert_eq |].
    split. { unfold load_status. cbn [Status set_Status statuses]. by rewrite lookup_snoc. }
    cbn. repeat split. by intros ->.
  - rewrite (UpdateLastLogin_run now h p x a s Hp Hs Ha).
    eexists _, _, _. split; [reflexivity |]. cbn [peers].
    split; [by apply list_lookup_insert_eq |].
    split. { unfold load_status. cbn [Status set_Status statuses]. by rewrite lookup_snoc. }
    cbn. by repeat split.
Qed.

(** ** Login expiration and FQDN *)

Lemma saturate_in_range d : time.in_range d -> time.saturate d = d.
Proof.
  unfold time.in_range, time.saturate. intros [H1 H2].
  destruct (Z.ltb_spec d time.minDuration); [lia |].
  destruct (Z.ltb_spec time.maxDuration d); [lia | done].
Qed.

Lemma saturate_sign d : (time.saturate d <=? 0) = (d <=? 0).
Proof.
  unfold time.saturate.
  destruct (Z.ltb_spec d time.minDuration) as [H1 | H1].
  - unfold time.minDuration in *. destruct (Z.leb_spec d 0); [done | lia].
  - destruct (Z.ltb_spec time.maxDuration d) as [H2 | H2]; [| done].
    unfold time.maxDuration in *. destruct (Z.leb_spec d 0); [lia | done].
Qed.

Lemma LoginExpired_run now h p x expiresIn :
  peers h !! p = Some x ->
  LoginExpired now p expiresIn h =
    if negb (negb (String.eqb (UserID x) "")) || negb (LoginExpirationEnabled x)
    then Some ((false, 0), h)
    else Some ((time.Sub (time.Add (LastLogin x) expiresIn) now <=? 0,
                time.Sub (time.Add (LastLogin x) expiresIn) now), h).
Proof.
  intros Hp. unfold LoginExpired. unfold_M. rewrite !Hp.
  by destruct (negb (negb _) || _).
Qed.

(** C6: a peer whose [UserID] is empty, or whose
    [LoginExpirationEnabled] is [false], is reported as not expired with
    no time left, whatever [LastLogin], the duration and the clock are. *)
Theorem LoginExpired_gated (now : time.Time) (h : Heap) (p : addr) (x : Peer)
    (expiresIn : time.Duration) :
  peers h !! p = Some x ->
  UserID x = ""%string \/ LoginExpirationEnabled x = false ->
  LoginExpired now p expiresIn h = Some ((false, 0), h).
Proof.
  intros Hp Hg. rewrite (LoginExpired_run now h p x expiresIn Hp).
  destruct Hg as [-> | ->]; [done |]. by rewrite orb_true_r.
Qed.

(** C7, as the code has it: for a peer added with SSO login and with
    login expiration enabled, the time left is [LastLogin + expiresIn - now]
    brought into the range of a [Duration]; it is that difference itself
    whenever the difference is a [Duration], negative values included;
    the peer is expired exactly when the difference is not positive.
    One hour of validity read two hours after the login gives
    [(true, - 1 hour)]. *)
Theorem LoginExpired_timeLeft (now : time.Time) (h : Heap) (p : addr)
    (x : Peer) (expiresIn : time.Duration) :
  peers h !! p = Some x ->
  UserID x <> ""%string -> LoginExpirationEnabled x = true ->
  let exact := time.instant (LastLogin x) + expiresIn - time.instant now in
  exists timeLeft,
    LoginExpired now p expiresIn h = Some ((timeLeft <=? 0, timeLeft), h) /\
    timeLeft = time.saturate exact /\
    (time.in_range exact -> timeLeft = exact) /\
    (timeLeft <=? 0) = (exact <=? 0) /\
    (expiresIn = time.Hour ->
     time.instant now = time.instant (LastLogin x) + 2 * time.Hour ->
     LoginExpired now p expiresIn h = Some ((true, - time.Hour), h)).
Proof.
  intros Hp Hu He exact. rewrite (LoginExpired_run now h p x expiresIn Hp).
  destruct (String.eqb_spec (UserID x) ""); [done |]. rewrite He. cbn [negb orb].
  unfold time.Sub, time.Add. cbn [time.instant]. fold exact.
  exists (time.saturate exact).
  split; [done |]. split; [done |]. split; [apply saturate_in_range |].
  split; [apply saturate_sign |].
  intros -> Hn. assert (E : exact = - time.Hour) by (unfold exact; lia).
  rewrite E. reflexivity.
Qed.

(** C9: [FQDN] of the empty domain is the empty string, for every peer
    (the label is not even read); for a non-empty domain it is the label,
    a dot and the domain. *)
Theorem FQDN_spec (h : Heap) (p : addr) (x : Peer) :
  peers h !! p = Some x ->
  FQDN p "" h = Some (""%string, h) /\
  forall dnsDomain, dnsDomain <> ""%string ->
    FQDN p dnsDomain h = Some ((DNSLabel x ++ "." ++ dnsDomain)%string, h).
Proof.
  intros Hp. split; [reflexivity |].
  intros d Hd. unfold FQDN.
  destruct (String.eqb_spec d ""); [done |]. unfold_M. by rewrite Hp.
Qed.

(** ** Copy *)

Lemma Copy_run_nil h p x :
  peers h !! p = Some x -> Status x = None ->
  Copy p h = Some (length (peers h), mkHeap (peers h ++ [x]) (statuses h) (arrays h)).
Proof.
  intros Hp Hs. unfold Copy. unfold_M. rewrite Hp, Hs.
  cbn [peers statuses arrays]. rewrite <- Hs. do 4 f_equal. by destruct x.
Qed.

Lemma Copy_run_status h p x a s :
  peers h !! p = Some x -> Status x = Some a -> statuses h !! a = Some s ->
  Copy p h =
    Some (length (peers h),
          mkHeap (peers h ++ [set_Status (Some (length (statuses h))) x])
            (statuses h ++ [s]) (arrays h)).
Proof.
  intros Hp Hs Ha. unfold Copy. unfold_M. rewrite Hp, Hs, Ha.
  cbn [peers statuses arrays]. by rewrite PeerStatus_eta.
Qed.

(** [observe] reads the struct, the snapshot it points to, and the arrays. *)
Lemma observe_ext q h h' x :
  peers h !! q = Some x -> peers h' !! q = Some x ->
  (forall a, Status x = Some a -> statuses h' !! a = statuses h !! a) ->
  arrays h' = arrays h ->
  observe q h' = observe q h.
Proof.
  intros Hq Hq' Hst Har. unfold observe, slice_bytes. rewrite Hq, Hq', Har.
  destruct (Status x) as [a |] eqn:Hs; [| done]. by rewrite (Hst a).
Qed.

(** An assignment to a field of [q], or of the snapshot [q] points to,
    is not seen through a pointer to another struct whose snapshot is
    another one. *)
Lemma mutate_frame q q' m h1 h2 xq xq' :
  peers h1 !! q = Some xq -> peers h1 !! q' = Some xq' -> q <> q' ->
  (forall a, Status xq = Some a -> Status xq' <> Some a) ->
  writes_slice_element m = false ->
  mutate q m h1 = Some (tt, h2) ->
  observe q' h2 = observe q' h1.
Proof.
  intros Hq Hq' Hne Hst Hm. unfold mutate. unfold_M. rewrite Hq.
  destruct m as [f | f | i b | i b]; try discriminate.
  - rewrite Hq. intros [= <-].
    apply (observe_ext q' h1 _ xq'); cbn [peers statuses arrays]; auto.
    by rewrite list_lookup_insert_ne.
  - destruct (Status xq) as [a |] eqn:Hs; [| discriminate].
    destruct (statuses h1 !! a) as [s |] eqn:Ha; [| discriminate].
    cbn [peers statuses arrays]. rewrite Ha. intros [= <-].
    apply (observe_ext q' h1 _ xq'); cbn [peers statuses arrays]; auto.
    intros a' Ha'. apply list_lookup_insert_ne. intros ->.
    by apply (Hst a').
Qed.

(** A byte written through a slice is read back through every slice
    with the same header. *)
Lemma slice_set_get s i b h h' :
  slice_set s i b h = Some (tt, h') -> slice_get s i h' = Some (b, h').
Proof.
  unfold slice_set, slice_get. destruct s as [sl |]; [| discriminate].
  destruct (i <? sl_len sl)%nat; [| discriminate].
  destruct (arrays h !! sl_array sl) as [a |] eqn:Ha; [| discriminate].
  destruct (Nat.ltb_spec (sl_off sl + i) (length a)) as [Hlt |]; [| discriminate].
  intros [= <-]. cbn [arrays].
  rewrite list_lookup_insert_eq by by eapply lookup_lt_Some.
  by rewrite list_lookup_insert_eq.
Qed.

(** C1, as the code has it: [Copy] allocates a new [Peer] whose fields
    equal the original's, the [Status] pointer apart; a non-nil [Status]
    is copied into a new [PeerStatus], never shared with the original;
    no assignment to a field of the copy, or of its [Status], is seen
    through the original, and the other way round.  The two address
    slices are copied as slice headers: a byte written through the copy's
    [IP] is read through the original's. *)
Theorem Copy_spec (h : Heap) (p : addr) (x : Peer) :
  peers h !! p = Some x ->
  (forall a, Status x = Some a -> is_Some (statuses h !! a)) ->
  exists c h1 y,
    Copy p h = Some (c, h1) /\
    c <> p /\ peers h !! c = None /\
    peers h1 !! c = Some y /\ peers h1 !! p = Some x /\
    set_Status None y = set_Status None x /\
    (Status x = None -> Status y = None) /\
    (forall a, Status x = Some a ->
       exists a' s, Status y = Some a' /\ a' <> a /\ statuses h !! a' = None /\
                    statuses h1 !! a' = Some s /\ statuses h1 !! a = Some s) /\
    observe c h1 = observe p h1 /\ observe p h1 = observe p h /\
    (forall m h2, writes_slice_element m = false ->
       (mutate c m h1 = Some (tt, h2) -> observe p h2 = observe p h1) /\
       (mutate p m h1 = Some (tt, h2) -> observe c h2 = observe c h1)) /\
    (forall i b h2, mutate c (AssignIPByte i b) h1 = Some (tt, h2) ->
       slice_get (IP x) i h2 = Some (b, h2)).
Proof.
  intros Hp Hv.
  assert (Hne : length (peers h) <> p).
  { intros E. symmetry in E. revert E. by eapply allocated_not_fresh. }
  destruct (Status x) as [a |] eqn:Hs.
  - destruct (Hv a eq_refl) as [s Ha].
    assert (Hna : length (statuses h) <> a).
    { intros E. symmetry in E. revert E. by eapply allocated_not_fresh. }
    rewrite (Copy_run_status h p x a s Hp Hs Ha).
    set (y := set_Status (Some (length (statuses h))) x).
    set (h1 := mkHeap (peers h ++ [y]) (statuses h ++ [s]) (arrays h)).
    assert (Hc : peers h1 !! length (peers h) = Some y) by apply lookup_snoc.
    assert (Hp1 : peers h1 !! p = Some x) by by apply lookup_snoc_old.
    exists (length (peers h)), h1, y.
    split; [done |]. split; [done |]. split; [apply lookup_fresh |].
    split; [done |]. split; [done |]. split; [done |]. split; [done |].
    split.
    { intros ? [= <-]. exists (length (statuses h)), s.
      split; [done |]. split; [done |]. split; [apply lookup_fresh |].
      split; [apply lookup_snoc | by apply lookup_snoc_old]. }
    split.
    { unfold observe. rewrite Hc, Hp1, Hs. cbn [Status y set_Status h1 statuses].
      rewrite lookup_snoc. by rewrite (lookup_snoc_old _ _ _ _ Ha). }
    split.
    { apply (observe_ext p h h1 x); auto.
      intros a0 E. assert (a0 = a) as -> by congruence.
      cbn [h1 statuses]. rewrite Ha. by apply lookup_snoc_old. }
    split.
    + intros m h2 Hm. split; intros Hrun.
      * eapply (mutate_frame (length (peers h)) p); eauto.
        intros ? [= <-]. rewrite Hs. congruence.
      * eapply (mutate_frame p (length (peers h))); eauto.
        rewrite Hs. intros ? [= <-]. cbn. congruence.
    + intros i b h2. unfold mutate. unfold_M. rewrite Hc.
      cbn [y set_Status IP]. apply slice_set_get.
  - rewrite (Copy_run_nil h p x Hp Hs).
    set (h1 := mkHeap (peers h ++ [x]) (statuses h) (arrays h)).
    assert (Hc : peers h1 !! length (peers h) = Some x) by apply lookup_snoc.
    assert (Hp1 : peers h1 !! p = Some x) by by apply lookup_snoc_old.
    exists (length (peers h)), h1, x.
    split; [done |]. split; [done |]. split; [apply lookup_fresh |].
    split; [done |]. split; [done |]. split; [done |]. split; [done |].
    split; [discriminate |].
    split. { unfold observe. by rewrite Hc, Hp1. }
    split. { apply (observe_ext p h h1 x); auto. }
    split.
    + intros m h2 Hm. split; intros Hrun.
      * eapply (mutate_frame (length (peers h)) p); eauto. rewrite Hs. discriminate.
      * eapply (mutate_frame p (length (peers h))); eauto. rewrite Hs. discriminate.
    + intros i b h2. unfold mutate. unfold_M. rewrite Hc. apply slice_set_get.
Qed.

(** The claim of C1 as the specification words it fails on the store
    with one peer: a byte written through the IP of the copy is seen
    through the original, whose first byte was 100. *)
Lemma Copy_IP_bytes_shared_counterexample : ~ Copy_independent ex_heap 0.
Proof.
  intros H.
  pose (h1 := mkHeap [ex_peer; set_Status (Some 1%nat) ex_peer]
                [ex_status; ex_status] (arrays ex_heap)).
  pose (h2 := mkHeap (peers h1) (statuses h1)
                [[Byte.x0a; Byte.x40; Byte.x00; Byte.x01]]).
  assert (E : Copy 0 ex_heap = Some (1%nat, h1)) by reflexivity.
  destruct (H 1%nat h1 E (AssignIPByte 0 Byte.x0a) h2) as [H1 _].
  specialize (H1 eq_refl). vm_compute in H1. discriminate H1.
Qed.

Lemma Copy_spec_witness :
  exists c h1, Copy 0 ex_heap = Some (c, h1) /\ observe c h1 = observe 0 ex_heap.
Proof.
  destruct (Copy_spec ex_heap 0 ex_peer eq_refl) as
    (c & h1 & y & Hrun & _ & _ & _ & _ & _ & _ & _ & Hobs & Hsame & _).
  - intros a [= <-]. by exists ex_status.
  - exists c, h1. split; [exact Hrun |]. by rewrite Hobs.
Defined.

(** ** The properties on the store with one peer *)

(** Stored [UIVersion] "1.2": a report without UI version changes
    nothing, a report with "1.3" is stored. *)
Lemma UpdateMetaIfNew_keeps_UIVersion_witness :
  UpdateMetaIfNew 0 (set_UIVersion "" ex_meta) ex_heap = Some (false, ex_heap) /\
  exists h' x',
    UpdateMetaIfNew 0 (set_UIVersion "1.3" ex_meta) ex_heap = Some (true, h') /\
    peers h' !! 0%nat = Some x' /\ UIVersion (Meta x') = "1.3"%string.
Proof.
  split.
  - destruct (UpdateMetaIfNew_keeps_UIVersion ex_heap 0 ex_peer
                (set_UIVersion "" ex_meta) eq_refl)
      as (b & h' & x' & Hrun & _ & _ & _ & He & _).
    destruct (He eq_refl) as (_ & _ & Hsame).
    destruct Hsame as [-> ->]; [by repeat split | exact Hrun].
  - destruct (UpdateMetaIfNew_keeps_UIVersion ex_heap 0 ex_peer
                (set_UIVersion "1.3" ex_meta) eq_refl)
      as (b & h' & x' & Hrun & Hx' & _ & _ & _ & Hn).
    destruct Hn as (-> & _ & Hui); [discriminate | discriminate |].
    by exists h', x'.
Defined.

(** A report equal to the stored metadata changes nothing; a report with
    another host name and no UI version is stored, with the UI version
    that was stored. *)
Lemma UpdateMetaIfNew_spec_witness :
  UpdateMetaIfNew 0 ex_meta ex_heap = Some (false, ex_heap) /\
  exists h' x',
    UpdateMetaIfNew 0
      (mkPeerSystemMeta "host-b" "linux" "Linux" "22.04" "x86_64" "Ubuntu"
         "22.04" "0.24.0" "" "5.15.0") ex_heap = Some (true, h') /\
    peers h' !! 0%nat = Some x' /\
    Hostname (Meta x') = "host-b"%string /\
    UIVersion (Meta x') = "1.2"%string /\
    ID x' = "peer-1"%string.
Proof.
  split.
  - destruct (UpdateMetaIfNew_spec ex_heap 0 ex_peer ex_meta eq_refl)
      as (b & h' & x' & Hrun & _ & Heq & _).
    destruct Heq as (-> & -> & _); [by repeat split | exact Hrun].
  - destruct (UpdateMetaIfNew_spec ex_heap 0 ex_peer
                (mkPeerSystemMeta "host-b" "linux" "Linux" "22.04" "x86_64"
                   "Ubuntu" "22.04" "0.24.0" "" "5.15.0") eq_refl)
      as (b & h' & x' & Hrun & Hx' & _ & Hne).
    destruct Hne as (-> & _ & Hhost & _ & _ & _ & _ & _ & _ & _ & _ & Hui & _ & Hx & _).
    { intros (Hh & _). discriminate Hh. }
    exists h', x'. split; [exact Hrun |]. split; [exact Hx' |].
    split; [exact Hhost |]. split; [exact (Hui eq_refl) |]. by rewrite Hx.
Defined.

Lemma UpdateMetaIfNew_twice_witness :
  exists h1,
    UpdateMetaIfNew 0 (set_UIVersion "1.3" ex_meta) ex_heap = Some (true, h1) /\
    UpdateMetaIfNew 0 (set_UIVersion "1.3" ex_meta) h1 = Some (false, h1).
Proof.
  destruct (UpdateMetaIfNew_twice ex_heap 0 ex_peer
              (set_UIVersion "1.3" ex_meta) eq_refl)
    as (b & h1 & x1 & Hrun & Hb & _ & _ & _ & Hagain).
  exists h1. split; [| exact Hagain].
  assert (b = true) as ->; [| exact Hrun].
  apply Hb. discriminate.
Defined.

(** A connected peer marked expired: read through the peer, the status
    is another snapshot, not connected and expired. *)
Lemma MarkLoginExpired_spec_witness :
  exists h' x' s',
    MarkLoginExpired 0 true ex_heap = Some (tt, h') /\
    peers h' !! 0%nat = Some x' /\
    Status x' <> Some 0%nat /\
    load_status (Status x') h' = Some (s', h') /\
    Connected s' = false /\ LoginExpired_flag s' = true /\
    statuses h' !! 0%nat = Some ex_status.
Proof.
  destruct (MarkLoginExpired_spec ex_heap 0 ex_peer 0 ex_status true
              eq_refl eq_refl eq_refl)
    as (h' & x' & a' & s' & Hrun & Hx' & Hst & Hload & _ & _ & Hne & _ & _ &
        _ & _ & _ & Hold & _ & Hforce).
  exists h', x', s'. destruct (Hforce eq_refl eq_refl) as [Hc He].
  split; [exact Hrun |]. split; [exact Hx' |].
  split. { rewrite Hst. intros [= E]. by apply Hne. }
  by repeat split.
Defined.


Lemma status_transitions_frame_witness :
  exists h' x' s',
    MarkLoginExpired 0 false ex_heap = Some (tt, h') /\
    peers h' !! 0%nat = Some x' /\ load_status (Status x') h' = Some (s', h') /\
    LastSeen s' = LastSeen ex_status /\ Connected s' = true.
Proof.
  destruct (status_transitions_frame a_clock ex_heap 0 ex_peer 0 ex_status
              eq_refl eq_refl eq_refl) as [Hmark _].
  destruct (Hmark false) as (h' & x' & s' & Hrun & Hx' & Hs' & Hseen & _ & Hconn).
  exists h', x', s'. repeat split; try done. by rewrite Hconn.
Defined.

(** The peer of the store with an empty [UserID]. *)
Lemma LoginExpired_gated_witness :
  LoginExpired a_clock 0 time.Hour
    (mkHeap [mkPeer "peer-2" "account-1" "pubkey" "setup-key" None ex_meta
               "host-b" "host-b" None "" "" false true time.zero false
               (mkLocation None "" "" 0%N)] [] [])
  = Some ((false, 0),
          mkHeap [mkPeer "peer-2" "account-1" "pubkey" "setup-key" None ex_meta
                    "host-b" "host-b" None "" "" false true time.zero false
                    (mkLocation None "" "" 0%N)] [] []).
Proof.
  eapply LoginExpired_gated; [reflexivity | by left].
Defined.

(** One hour of validity, read two hours after the login. *)
Lemma LoginExpired_timeLeft_witness :
  LoginExpired (time.mkTime (63839664000 * time.Second + 2 * time.Hour) time.Local)
    0 time.Hour ex_heap
  = Some ((true, - time.Hour), ex_heap).
Proof.
  destruct (LoginExpired_timeLeft
              (time.mkTime (63839664000 * time.Second + 2 * time.Hour) time.Local)
              ex_heap 0 ex_peer time.Hour eq_refl)
    as (t & _ & _ & _ & _ & Hex); [discriminate | reflexivity |].
  by apply Hex.
Defined.

(** The claim of C7 as the specification words it fails for a peer with
    the zero [LastLogin]: the difference, about minus 2024 years, is not
    a [Duration], and the time left is the smallest [Duration]. *)
Lemma LoginExpired_zero_LastLogin_counterexample :
  peers never_logged_in !! 0%nat = Some (set_LastLogin time.zero ex_peer) /\
  UserID (set_LastLogin time.zero ex_peer) <> ""%string /\
  LoginExpirationEnabled (set_LastLogin time.zero ex_peer) = true /\
  LoginExpired a_clock 0 time.Hour never_logged_in
    = Some ((true, time.minDuration), never_logged_in) /\
  time.minDuration <>
    time.instant (LastLogin (set_LastLogin time.zero ex_peer)) + time.Hour
      - time.instant a_clock.
Proof.
  split; [reflexivity |]. split; [discriminate |]. split; [reflexivity |].
  split; [vm_compute; reflexivity | vm_compute; discriminate].
Qed.

Lemma FQDN_spec_witness :
  FQDN 0 "" ex_heap = Some (""%string, ex_heap) /\
  FQDN 0 "netbird.cloud" ex_heap = Some ("host-a.netbird.cloud"%string, ex_heap).
Proof.
  destruct (FQDN_spec ex_heap 0 ex_peer eq_refl) as [He Hd].
  split; [exact He |]. by apply (Hd "netbird.cloud"%string).
Defined.

(** ** Further properties: equality of metadata *)

(** [isEqual] decides equality of the two structs: it is [true] exactly
    when they are equal, whichever of the two is the receiver, and so it
    is reflexive, symmetric and transitive. *)
Theorem isEqual_decides_equality (a b : PeerSystemMeta) :
  (isEqual a b = true <-> a = b) /\
  isEqual a b = isEqual b a /\
  isEqual a a = true /\
  (forall c, isEqual a b = true -> isEqual b c = true -> isEqual a c = true).
Proof.
  assert (Hdec : forall u v, isEqual u v = true <-> u = v).
  { intros u v. rewrite isEqual_true. split; congruence. }
  split; [apply Hdec |]. split.
  - destruct (isEqual a b) eqn:E1, (isEqual b a) eqn:E2; try done.
    + apply Hdec in E1. symmetry in E1. apply Hdec in E1. congruence.
    + apply Hdec in E2. symmetry in E2. apply Hdec in E2. congruence.
  - split; [by apply Hdec |].
    intros c H1 H2. apply Hdec in H1, H2. apply Hdec. congruence.
Qed.

(** ** Further properties: panics *)

Lemma MarkLoginExpired_inv p e h r h' :
  MarkLoginExpired p e h = Some (r, h') ->
  exists x a s, peers h !! p = Some x /\ Status x = Some a /\
                statuses h !! a = Some s.
Proof.
  unfold MarkLoginExpired. unfold_M.
  destruct (peers h !! p) as [x |] eqn:Hp; [| discriminate].
  destruct (Status x) as [a |] eqn:Hs; [| discriminate].
  destruct (statuses h !! a) as [s |] eqn:Ha; [| discriminate].
  intros _. by exists x, a, s.
Qed.

Lemma UpdateLastLogin_inv now p h r h' :
  UpdateLastLogin now p h = Some (r, h') ->
  exists x a s, peers h !! p = Some x /\ Status x = Some a /\
                statuses h !! a = Some s.
Proof.
  unfold UpdateLastLogin. unfold_M.
  destruct (peers h !! p) as [x |] eqn:Hp; [| discriminate].
  assert (Hlt : (p < length (peers h))%nat) by by eapply lookup_lt_Some.
  run_with Hp.
  destruct (Status x) as [a |] eqn:Hs; [| discriminate].
  destruct (statuses h !! a) as [s |] eqn:Ha; [| discriminate].
  intros _. by exists x, a, s.
Qed.

(** A peer whose [Status] is nil: [MarkLoginExpired], [UpdateLastLogin]
    and [PeerStatus.Copy] panic on it, while [Copy], which tests the
    pointer, returns a copy whose [Status] is nil as well. *)
Theorem nil_Status_panics (now : time.Time) (h : Heap) (p : addr) (x : Peer)
    (expired : bool) :
  peers h !! p = Some x -> Status x = None ->
  MarkLoginExpired p expired h = None /\
  UpdateLastLogin now p h = None /\
  PeerStatus_Copy (Status x) h = None /\
  exists c h1 y, Copy p h = Some (c, h1) /\ peers h1 !! c = Some y /\
                 Status y = None.
Proof.
  intros Hp Hs. split.
  { destruct (MarkLoginExpired p expired h) as [[r h'] |] eqn:E; [| done].
    apply MarkLoginExpired_inv in E as (x' & a & s & Hp' & Hs' & _). congruence. }
  split.
  { destruct (UpdateLastLogin now p h) as [[r h'] |] eqn:E; [| done].
    apply UpdateLastLogin_inv in E as (x' & a & s & Hp' & Hs' & _). congruence. }
  split; [by rewrite Hs |].
  rewrite (Copy_run_nil h p x Hp Hs).
  eexists _, _, x. split; [reflexivity |]. split; [apply lookup_snoc | done].
Qed.

Lemma FQDN_run h p x dnsDomain :
  peers h !! p = Some x ->
  FQDN p dnsDomain h =
    Some (if String.eqb dnsDomain "" then ""%string
          else (DNSLabel x ++ "." ++ dnsDomain)%string, h).
Proof.
  intros Hp. unfold FQDN. destruct (String.eqb dnsDomain ""); [done |].
  unfold_M. by rewrite Hp.
Qed.

Lemma EventMeta_run h p x dnsDomain :
  peers h !! p = Some x ->
  EventMeta p dnsDomain h =
    Some (<["ip"%string := any_IP (IP x)]>
            (<["fqdn"%string :=
                 any_string (if String.eqb dnsDomain "" then ""%string
                             else (DNSLabel x ++ "." ++ dnsDomain)%string)]>
               (<["name"%string := any_string (Name x)]> ∅)), h).
Proof.
  intros Hp. unfold EventMeta, bind at 1 2. unfold load_peer at 1.
  rewrite Hp, (FQDN_run h p x dnsDomain Hp). unfold_M. by rewrite Hp.
Qed.

(** On a pointer to no peer (nil), [FQDN] panics exactly when the
    domain is not empty: the empty domain is answered before the peer is
    read.  [EventMeta], [AddedWithSSOLogin], [LoginExpired] and
    [UpdateMetaIfNew] read the peer first and panic exactly when there is
    none. *)
Theorem nil_receiver_panics (now : time.Time) (h : Heap) (p : addr)
    (dnsDomain : string) (d : time.Duration) (m : PeerSystemMeta) :
  (FQDN p dnsDomain h = None <-> dnsDomain <> ""%string /\ peers h !! p = None) /\
  (EventMeta p dnsDomain h = None <-> peers h !! p = None) /\
  (AddedWithSSOLogin p h = None <-> peers h !! p = None) /\
  (LoginExpired now p d h = None <-> peers h !! p = None) /\
  (UpdateMetaIfNew p m h = None <-> peers h !! p = None).
Proof.
  destruct (peers h !! p) as [x |] eqn:Hp.
  - rewrite (FQDN_run h p x dnsDomain Hp), (EventMeta_run h p x dnsDomain Hp),
      (LoginExpired_run now h p x d Hp), (UpdateMetaIfNew_run h p x m Hp).
    unfold AddedWithSSOLogin. unfold_M. rewrite Hp.
    destruct (negb (negb _) || _), (isEqual _ _); repeat split; try done;
      by intros [_ ?].
  - unfold FQDN, EventMeta, LoginExpired, UpdateMetaIfNew. unfold_M. rewrite Hp.
    destruct (String.eqb_spec dnsDomain "") as [-> | Hd];
      unfold_M; rewrite ?Hp; repeat split; try done.
    by intros [? _].
Qed.

(** ** Further properties: what the methods leave alone *)

Lemma preserved_but_transition p h x' s' :
  preserved_but p h
    (mkHeap (<[p := x']> (peers h)) (statuses h ++ [s']) (arrays h)).
Proof.
  split; [| split]; cbn [peers statuses arrays]; [| | done].
  - intros q y Hq Hy. by rewrite list_lookup_insert_ne.
  - intros a s Ha. by apply lookup_snoc_old.
Qed.

Lemma preserved_but_store p h x' :
  preserved_but p h (with_peers (fun l => <[p := x']> l) h).
Proof.
  split; [| split]; cbn [with_peers peers statuses arrays]; [| done | done].
  intros q y Hq Hy. by rewrite list_lookup_insert_ne.
Qed.

Lemma MarkLoginExpired_preserved p e h r h' :
  MarkLoginExpired p e h = Some (r, h') ->
  preserved_but p h h' /\ length (statuses h') = S (length (statuses h)).
Proof.
  intros E. destruct (MarkLoginExpired_inv _ _ _ _ _ E) as (x & a & s & Hp & Hs & Ha).
  rewrite (MarkLoginExpired_run h p x a s e Hp Hs Ha) in E.
  injection E as _ <-. split; [apply preserved_but_transition |].
  cbn [statuses]. rewrite length_app. simpl. lia.
Qed.

Lemma UpdateLastLogin_preserved now p h r h' :
  UpdateLastLogin now p h = Some (r, h') ->
  preserved_but p h h' /\ length (statuses h') = S (length (statuses h)).
Proof.
  intros E. destruct (UpdateLastLogin_inv _ _ _ _ _ E) as (x & a & s & Hp & Hs & Ha).
  rewrite (UpdateLastLogin_run now h p x a s Hp Hs Ha) in E.
  injection E as _ <-. split; [apply preserved_but_transition |].
  cbn [statuses]. rewrite length_app. simpl. lia.
Qed.

Lemma UpdateMetaIfNew_preserved p m h r h' :
  UpdateMetaIfNew p m h = Some (r, h') ->
  preserved_but p h h' /\ statuses h' = statuses h.
Proof.
  destruct (peers h !! p) as [x |] eqn:Hp.
  - rewrite (UpdateMetaIfNew_run h p x m Hp).
    destruct (isEqual _ _); intros [= _ <-]; split; try done.
    apply preserved_but_store.
  - unfold UpdateMetaIfNew. unfold_M. by rewrite Hp.
Qed.

(** What is read through [q] is kept when the objects of the store are. *)
Lemma observe_preserved p q h h' y :
  preserved_but p h h' -> q <> p -> peers h !! q = Some y ->
  status_allocated h y -> observe q h' = observe q h.
Proof.
  intros (Hpe & Hst & Har) Hq Hy Hal.
  apply (observe_ext q h h' y); auto.
  intros a Ha. destruct (Hal a Ha) as [s Hs]. rewrite Hs. by apply Hst.
Qed.

(** Copy on write: a call of [MarkLoginExpired] or of [UpdateLastLogin]
    that returns has allocated one [PeerStatus] and has written no
    [PeerStatus] that existed, no other peer and no byte of an address. *)
Theorem status_transitions_copy_on_write (now : time.Time) (h : Heap)
    (p : addr) (expired : bool) :
  (forall r h', MarkLoginExpired p expired h = Some (r, h') ->
     preserved_but p h h' /\ length (statuses h') = S (length (statuses h))) /\
  (forall r h', UpdateLastLogin now p h = Some (r, h') ->
     preserved_but p h h' /\ length (statuses h') = S (length (statuses h))).
Proof.
  split; intros r h' E.
  - by eapply MarkLoginExpired_preserved.
  - by eapply UpdateLastLogin_preserved.
Qed.

(** [UpdateMetaIfNew] returns [true] exactly when it has changed the
    store, and then the change is the [Meta] field of the peer and
    nothing else: its other fields, the other peers, the snapshots and
    the address bytes are as before. *)
Theorem UpdateMetaIfNew_true_iff_changed (h : Heap) (p : addr) (x : Peer)
    (m : PeerSystemMeta) :
  peers h !! p = Some x ->
  exists b h' x',
    UpdateMetaIfNew p m h = Some (b, h') /\
    (b = true <-> h' <> h) /\
    peers h' !! p = Some x' /\ set_Meta (Meta x) x' = x /\
    preserved_but p h h' /\ statuses h' = statuses h.
Proof.
  intros Hp.
  assert (Hlt : (p < length (peers h))%nat) by by eapply lookup_lt_Some.
  destruct (UpdateMetaIfNew p m h) as [[b h'] |] eqn:E.
  2: { rewrite (UpdateMetaIfNew_run h p x m Hp) in E. by destruct (isEqual _ _). }
  destruct (UpdateMetaIfNew_preserved _ _ _ _ _ E) as [Hpres Hst].
  rewrite (UpdateMetaIfNew_run h p x m Hp) in E.
  destruct (isEqual (Meta x) (adjust_UIVersion (Meta x) m)) eqn:Eq;
    injection E as <- <-.
  - exists false, h, x. split; [done |]. split; [split; [discriminate | done] |].
    split; [done |]. split; [by destruct x | done].
  - exists true, (with_peers (fun l => <[p := set_Meta (adjust_UIVersion (Meta x) m) x]> l) h),
      (set_Meta (adjust_UIVersion (Meta x) m) x).
    split; [done |]. split.
    { split; [| done]. intros _ Heq. apply isEqual_false in Eq. apply Eq.
      assert (Hl : peers (with_peers (fun l => <[p := set_Meta (adjust_UIVersion (Meta x) m) x]> l) h) !! p
                   = Some (set_Meta (adjust_UIVersion (Meta x) m) x)).
      { simpl. by apply list_lookup_insert_eq. }
      rewrite Heq, Hp in Hl. injection Hl as Hl. by rewrite Hl at 2. }
    split. { simpl. by apply list_lookup_insert_eq. }
    split; [by destruct x | done].
Qed.

(** ** Further properties: a copy and the methods *)

(** The store after [Copy], as far as the methods need it. *)
Lemma Copy_summary h p x :
  peers h !! p = Some x -> status_allocated h x ->
  exists c h1 y,
    Copy p h = Some (c, h1) /\ c <> p /\
    peers h1 !! c = Some y /\ peers h1 !! p = Some x /\
    status_allocated h1 x /\ status_allocated h1 y /\
    set_Status None y = set_Status None x /\
    observe p h1 = observe p h.
Proof.
  intros Hp Hv.
  assert (Hne : length (peers h) <> p).
  { intros E. symmetry in E. revert E. by eapply allocated_not_fresh. }
  destruct (Status x) as [a |] eqn:Hs.
  - destruct (Hv a Hs) as [s Ha].
    rewrite (Copy_run_status h p x a s Hp Hs Ha).
    eexists _, _, _. split; [reflexivity |]. split; [done |].
    cbn [peers]. split; [apply lookup_snoc |].
    split; [by apply lookup_snoc_old |]. split.
    { intros a' Ha'. destruct (Hv a' Ha') as [s' Hs']. exists s'.
      by apply lookup_snoc_old. }
    split.
    { intros a' [= <-]. exists s. apply lookup_snoc. }
    split; [done |].
    apply (observe_ext p h _ x); auto.
    + by apply lookup_snoc_old.
    + intros a' Ha'. destruct (Hv a' Ha') as [s' Hs']. cbn [statuses].
      rewrite Hs'. by apply lookup_snoc_old.
  - rewrite (Copy_run_nil h p x Hp Hs).
    eexists _, _, _. split; [reflexivity |]. split; [done |].
    cbn [peers]. split; [apply lookup_snoc |].
    split; [by apply lookup_snoc_old |].
    split; [by intros a' Ha'; congruence |].
    split; [by intros a' Ha'; congruence |]. split; [done |].
    apply (observe_ext p h _ x); auto. by apply lookup_snoc_old.
Qed.

(** None of the methods of the package that write, called on a copy, is
    seen through the original, and none called on the original is seen
    through the copy: none of them writes a byte of an address. *)
Theorem Copy_isolated_from_methods (now : time.Time) (h : Heap) (p : addr)
    (x : Peer) (m : PeerSystemMeta) (expired : bool) :
  peers h !! p = Some x -> status_allocated h x ->
  exists c h1,
    Copy p h = Some (c, h1) /\
    (forall b h2, UpdateMetaIfNew c m h1 = Some (b, h2) ->
       observe p h2 = observe p h) /\
    (forall r h2, MarkLoginExpired c expired h1 = Some (r, h2) ->
       observe p h2 = observe p h) /\
    (forall r h2, UpdateLastLogin now c h1 = Some (r, h2) ->
       observe p h2 = observe p h) /\
    (forall b h2, UpdateMetaIfNew p m h1 = Some (b, h2) ->
       observe c h2 = observe c h1) /\
    (forall r h2, MarkLoginExpired p expired h1 = Some (r, h2) ->
       observe c h2 = observe c h1) /\
    (forall r h2, UpdateLastLogin now p h1 = Some (r, h2) ->
       observe c h2 = observe c h1).
Proof.
  intros Hp Hv.
  destruct (Copy_summary h p x Hp Hv)
    as (c & h1 & y & Hrun & Hne & Hc & Hp1 & Hvx & Hvy & _ & Hobs).
  exists c, h1. split; [exact Hrun |].
  assert (Hne' : p <> c) by congruence.
  repeat split; intros r h2 E.
  - rewrite <- Hobs. apply UpdateMetaIfNew_preserved in E as [E _].
    by eapply observe_preserved.
  - rewrite <- Hobs. apply MarkLoginExpired_preserved in E as [E _].
    by eapply observe_preserved.
  - rewrite <- Hobs. apply UpdateLastLogin_preserved in E as [E _].
    by eapply observe_preserved.
  - apply UpdateMetaIfNew_preserved in E as [E _]. by eapply observe_preserved.
  - apply MarkLoginExpired_preserved in E as [E _]. by eapply observe_preserved.
  - apply UpdateLastLogin_preserved in E as [E _]. by eapply observe_preserved.
Qed.

(** A copy answers as the original: [LoginExpired], [FQDN],
    [AddedWithSSOLogin] and [EventMeta] return on the copy what they
    return on the original. *)
Theorem Copy_answers_alike (now : time.Time) (h : Heap) (p : addr) (x : Peer)
    (d : time.Duration) (dnsDomain : string) :
  peers h !! p = Some x -> status_allocated h x ->
  exists c h1,
    Copy p h = Some (c, h1) /\
    fst <$> LoginExpired now c d h1 = fst <$> LoginExpired now p d h /\
    fst <$> FQDN c dnsDomain h1 = fst <$> FQDN p dnsDomain h /\
    fst <$> AddedWithSSOLogin c h1 = fst <$> AddedWithSSOLogin p h /\
    fst <$> EventMeta c dnsDomain h1 = fst <$> EventMeta p dnsDomain h /\
    is_Some (LoginExpired now p d h) /\ is_Some (EventMeta p dnsDomain h).
Proof.
  intros Hp Hv.
  destruct (Copy_summary h p x Hp Hv)
    as (c & h1 & y & Hrun & Hne & Hc & Hp1 & Hvx & Hvy & Hy & _).
  exists c, h1. split; [exact Hrun |].
  assert (Hf : UserID y = UserID x /\ LoginExpirationEnabled y = LoginExpirationEnabled x /\
               LastLogin y = LastLogin x /\ DNSLabel y = DNSLabel x /\
               Name y = Name x /\ IP y = IP x).
  { destruct x, y. cbn in *. injection Hy as -> -> -> -> -> -> -> -> -> -> -> -> -> -> ->.
    by repeat split. }
  destruct Hf as (Hu & He & Hl & Hd & Hn & Hi).
  rewrite (LoginExpired_run now h1 c y d Hc), (LoginExpired_run now h p x d Hp),
    (FQDN_run h1 c y dnsDomain Hc), (FQDN_run h p x dnsDomain Hp),
    (EventMeta_run h1 c y dnsDomain Hc), (EventMeta_run h p x dnsDomain Hp).
  unfold AddedWithSSOLogin. unfold_M. rewrite Hc, Hp.
  rewrite Hu, He, Hl, Hd, Hn, Hi.
  destruct (negb (negb _) || _); by repeat split.
Qed.

(** ** Further properties: sequences of calls *)

(** Two calls of [MarkLoginExpired] in a row: the peer ends with a
    snapshot whose [LoginExpired] is the second flag and whose
    [Connected] is [false] as soon as one of the flags was [true]; so
    marking a peer as not expired does not connect it again.  The
    snapshot the peer started with keeps its content. *)
Theorem MarkLoginExpired_twice (h : Heap) (p : addr) (x : Peer) (a : addr)
    (s : PeerStatus) (e1 e2 : bool) :
  peers h !! p = Some x -> Status x = Some a -> statuses h !! a = Some s ->
  exists h2 x2 s2,
    (MarkLoginExpired p e1 ;;; MarkLoginExpired p e2) h = Some (tt, h2) /\
    peers h2 !! p = Some x2 /\ load_status (Status x2) h2 = Some (s2, h2) /\
    s2 = mkPeerStatus (LastSeen s) (if e1 || e2 then false else Connected s)
           e2 (RequiresApproval s) /\
    statuses h2 !! a = Some s.
Proof.
  intros Hp Hs Ha.
  assert (Hlt : (p < length (peers h))%nat) by by eapply lookup_lt_Some.
  unfold bind at 1. rewrite (MarkLoginExpired_run h p x a s e1 Hp Hs Ha).
  set (s1 := mkPeerStatus (LastSeen s) (if e1 then false else Connected s) e1
               (RequiresApproval s)).
  set (x1 := set_Status (Some (length (statuses h))) x).
  set (h1 := mkHeap (<[p := x1]> (peers h)) (statuses h ++ [s1]) (arrays h)).
  assert (Hp1 : peers h1 !! p = Some x1) by by apply list_lookup_insert_eq.
  assert (Ha1 : statuses h1 !! length (statuses h) = Some s1) by apply lookup_snoc.
  rewrite (MarkLoginExpired_run h1 p x1 _ s1 e2 Hp1 eq_refl Ha1).
  eexists _, _, _. split; [reflexivity |]. cbn [peers statuses].
  split. { apply list_lookup_insert_eq. by eapply lookup_lt_Some. }
  split. { unfold load_status. cbn [Status set_Status statuses]. by rewrite lookup_snoc. }
  split. { cbn [s1 LastSeen Connected RequiresApproval]. by destruct e1, e2. }
  apply lookup_snoc_old. by apply lookup_snoc_old.
Qed.

(** After [UpdateLastLogin] read the clock at [now], a peer added with
    SSO login and with login expiration enabled has
    [now + expiresIn - now'] left at a later reading [now'] (brought into
    the range of a [Duration]); asked at once, a positive [expiresIn] is
    returned whole and the peer is not expired. *)
Theorem UpdateLastLogin_restarts_expiration (now now' : time.Time) (h : Heap)
    (p : addr) (x : Peer) (a : addr) (s : PeerStatus) (d : time.Duration) :
  peers h !! p = Some x -> Status x = Some a -> statuses h !! a = Some s ->
  UserID x <> ""%string -> LoginExpirationEnabled x = true ->
  exists h1,
    UpdateLastLogin now p h = Some (p, h1) /\
    LoginExpired now' p d h1 =
      Some ((time.saturate (time.instant now + d - time.instant now') <=? 0,
             time.saturate (time.instant now + d - time.instant now')), h1) /\
    (time.instant now' = time.instant now -> 0 < d -> time.in_range d ->
     LoginExpired now' p d h1 = Some ((false, d), h1)).
Proof.
  intros Hp Hs Ha Hu He.
  assert (Hlt : (p < length (peers h))%nat) by by eapply lookup_lt_Some.
  rewrite (UpdateLastLogin_run now h p x a s Hp Hs Ha).
  eexists. split; [reflexivity |].
  match goal with |- context [LoginExpired _ _ _ ?h1] => set (H1 := h1) end.
  assert (Hp1 : peers H1 !! p =
                Some (set_Status (Some (length (statuses h)))
                        (set_LastLogin (time.UTC now) x)))
    by by apply list_lookup_insert_eq.
  rewrite (LoginExpired_run now' H1 p _ d Hp1).
  cbn [UserID LoginExpirationEnabled LastLogin set_Status set_LastLogin].
  destruct (String.eqb_spec (UserID x) ""); [done |]. rewrite He. cbn [negb orb].
  unfold time.Sub, time.Add, time.UTC. cbn [time.instant].
  split; [done |]. intros -> Hpos Hr.
  replace (time.instant now + d - time.instant now) with d by lia.
  rewrite (saturate_in_range d Hr).
  destruct (Z.leb_spec d 0); [lia | done].
Qed.

(** The time left never grows with the clock and is a [Duration]
    whatever the instants are; a peer reported as expired at one reading
    is reported as expired at every later one. *)
Theorem LoginExpired_monotone (now now' : time.Time) (h : Heap) (p : addr)
    (d : time.Duration) (e : bool) (t : time.Duration) (h1 : Heap) :
  time.instant now <= time.instant now' ->
  LoginExpired now p d h = Some ((e, t), h1) ->
  exists e' t',
    LoginExpired now' p d h = Some ((e', t'), h) /\
    t' <= t /\ (e = true -> e' = true) /\
    time.in_range t /\ time.in_range t'.
Proof.
  intros Hle E.
  destruct (peers h !! p) as [x |] eqn:Hp.
  2: { revert E. unfold LoginExpired. unfold_M. by rewrite Hp. }
  rewrite (LoginExpired_run now h p x d Hp) in E.
  rewrite (LoginExpired_run now' h p x d Hp).
  destruct (negb (negb _) || _).
  - injection E as <- <- <-. exists false, 0.
    unfold time.in_range, time.minDuration, time.maxDuration. repeat split; lia.
  - injection E as <- <- <-. eexists _, _. split; [reflexivity |].
    unfold time.Sub, time.Add. cbn [time.instant].
    set (u := time.instant (LastLogin x) + d).
    assert (Hsat : forall z, time.in_range (time.saturate z)).
    { intros z. unfold time.saturate, time.in_range.
      destruct (Z.ltb_spec z time.minDuration);
        [unfold time.minDuration, time.maxDuration; lia |].
      destruct (Z.ltb_spec time.maxDuration z);
        unfold time.minDuration, time.maxDuration in *; lia. }
    assert (Hmono : time.saturate (u - time.instant now')
                    <= time.saturate (u - time.instant now)).
    { unfold time.saturate.
      destruct (Z.ltb_spec (u - time.instant now') time.minDuration),
               (Z.ltb_spec (u - time.instant now) time.minDuration),
               (Z.ltb_spec time.maxDuration (u - time.instant now')),
               (Z.ltb_spec time.maxDuration (u - time.instant now));
        unfold time.minDuration, time.maxDuration in *; lia. }
    split; [exact Hmono |]. split; [| by split].
    intros Ht. apply Z.leb_le in Ht. apply Z.leb_le. lia.
Qed.

(** A [UIVersion] that is known is never lost: whatever metadata is
    reported, any number of times, a stored [UIVersion] that is not empty
    stays not empty, and every call returns. *)
Theorem UIVersion_never_erased (ms : list PeerSystemMeta) (h : Heap)
    (p : addr) (x : Peer) :
  peers h !! p = Some x -> UIVersion (Meta x) <> ""%string ->
  exists bs h' x',
    report_all p ms h = Some (bs, h') /\ length bs = length ms /\
    peers h' !! p = Some x' /\ UIVersion (Meta x') <> ""%string /\
    set_Meta (Meta x) x' = x.
Proof.
  revert h x. induction ms as [| m ms IH]; intros h x Hp Hne.
  - exists [], h, x. repeat split; try done. by destruct x.
  - assert (Hlt : (p < length (peers h))%nat) by by eapply lookup_lt_Some.
    cbn [report_all]. unfold bind at 1.
    rewrite (UpdateMetaIfNew_run h p x m Hp).
    assert (Hadj : UIVersion (adjust_UIVersion (Meta x) m) <> ""%string).
    { unfold adjust_UIVersion.
      destruct (String.eqb_spec (UIVersion m) ""); [by cbn | done]. }
    destruct (isEqual _ _).
    + destruct (IH h x Hp Hne) as (bs & h' & x' & Hrun & Hlen & Hp' & Hne' & Hx').
      exists (false :: bs), h', x'. unfold bind, ret. rewrite Hrun.
      repeat split; try done. simpl. by rewrite Hlen.
    + set (x1 := set_Meta (adjust_UIVersion (Meta x) m) x).
      set (h1 := with_peers _ h).
      assert (Hp1 : peers h1 !! p = Some x1) by by apply list_lookup_insert_eq.
      destruct (IH h1 x1 Hp1 Hadj) as (bs & h' & x' & Hrun & Hlen & Hp' & Hne' & Hx').
      exists (true :: bs), h', x'. unfold bind, ret. rewrite Hrun.
      repeat split; try done.
      * simpl. by rewrite Hlen.
      * change (set_Meta (Meta x) x') with (set_Meta (Meta x) (set_Meta (Meta x1) x')).
        rewrite Hx'. by destruct x.
Qed.

(** ** Further properties: reading *)

(** [EventMeta] returns a map with the three keys [name], [fqdn] and
    [ip] and no other: the name of the peer, what [FQDN] returns for the
    domain (the empty string for the empty domain), and the [IP] slice
    of the peer itself, not a copy of its bytes. *)
Theorem EventMeta_entries (h : Heap) (p : addr) (x : Peer)
    (dnsDomain : string) :
  peers h !! p = Some x ->
  exists (m : gmap string any) (fqdn : string),
    EventMeta p dnsDomain h = Some (m, h) /\
    FQDN p dnsDomain h = Some (fqdn, h) /\
    m !! "name"%string = Some (any_string (Name x)) /\
    m !! "fqdn"%string = Some (any_string fqdn) /\
    m !! "ip"%string = Some (any_IP (IP x)) /\
    (forall k : string, k <> "name"%string -> k <> "fqdn"%string ->
       k <> "ip"%string -> m !! k = None) /\
    size m = 3%nat /\
    (dnsDomain = ""%string -> fqdn = ""%string).
Proof.
  intros Hp.
  rewrite (EventMeta_run h p x dnsDomain Hp), (FQDN_run h p x dnsDomain Hp).
  eexists _, _. split; [reflexivity |]. split; [reflexivity |].
  split; [by simplify_map_eq |]. split; [by simplify_map_eq |].
  split; [by simplify_map_eq |]. split.
  { intros k H1 H2 H3. by simplify_map_eq. }
  split.
  { rewrite !map_size_insert_None; [by rewrite map_size_empty | | |];
      by simplify_map_eq. }
  by intros ->.
Qed.

(** [LoginExpired], [FQDN], [AddedWithSSOLogin] and [EventMeta] only
    read: when they return, the store is the one they were called on. *)
Theorem readers_leave_the_store (now : time.Time) (h : Heap) (p : addr)
    (d : time.Duration) (dnsDomain : string) :
  (forall r h', LoginExpired now p d h = Some (r, h') -> h' = h) /\
  (forall r h', FQDN p dnsDomain h = Some (r, h') -> h' = h) /\
  (forall r h', AddedWithSSOLogin p h = Some (r, h') -> h' = h) /\
  (forall r h', EventMeta p dnsDomain h = Some (r, h') -> h' = h).
Proof.
  destruct (peers h !! p) as [x |] eqn:Hp.
  - rewrite (LoginExpired_run now h p x d Hp), (FQDN_run h p x dnsDomain Hp),
      (EventMeta_run h p x dnsDomain Hp).
    unfold AddedWithSSOLogin. unfold_M. rewrite Hp.
    destruct (negb (negb _) || _); repeat split; intros r h' E; congruence.
  - unfold LoginExpired, FQDN, EventMeta. unfold_M. rewrite Hp.
    destruct (String.eqb dnsDomain ""); unfold_M; rewrite ?Hp;
      repeat split; intros r h' E; congruence.
Qed.

(** [PeerStatus.Copy] never returns nil nor its receiver: the result
    points to a snapshot that did not exist, with the four fields of the
    receiver.  Nothing that existed is written: the peers, the address
    bytes and every snapshot allocated before, the receiver among them,
    are as they were, and one snapshot has been added.  A later write
    through the result leaves the receiver and every snapshot allocated
    before as they were. *)
Theorem PeerStatus_Copy_fresh (h : Heap) (a : addr) (s : PeerStatus) :
  statuses h !! a = Some s ->
  exists a' h',
    PeerStatus_Copy (Some a) h = Some (Some a', h') /\
    a' <> a /\ statuses h !! a' = None /\
    statuses h' !! a' = Some s /\ statuses h' !! a = Some s /\
    (forall b v, statuses h !! b = Some v -> statuses h' !! b = Some v) /\
    (forall b, b <> a' -> statuses h' !! b = statuses h !! b) /\
    length (statuses h') = S (length (statuses h)) /\
    peers h' = peers h /\ arrays h' = arrays h /\
    (forall v h2, store_status (Some a') v h' = Some (tt, h2) ->
       statuses h2 !! a' = Some v /\ statuses h2 !! a = Some s /\
       (forall b w, statuses h !! b = Some w -> statuses h2 !! b = Some w) /\
       peers h2 = peers h /\ arrays h2 = arrays h).
Proof.
  intros Ha. unfold PeerStatus_Copy. unfold_M. rewrite Ha, PeerStatus_eta.
  assert (Hne : length (statuses h) <> a).
  { intros E. symmetry in E. revert E. by eapply allocated_not_fresh. }
  eexists _, _. split; [reflexivity |]. cbn [peers statuses arrays].
  split; [done |]. split; [apply lookup_fresh |].
  split; [apply lookup_snoc |]. split; [by apply lookup_snoc_old |].
  split. { intros b v Hb. by apply lookup_snoc_old. }
  split.
  { intros b Hb. destruct (decide (b < length (statuses h))%nat) as [Hlt | Hge].
    - by rewrite lookup_app_l.
    - rewrite !lookup_ge_None_2; [done | lia |].
      rewrite length_app. simpl. lia. }
  split. { rewrite length_app. simpl. lia. }
  split; [done |]. split; [done |].
  intros v h2. rewrite lookup_snoc. intros [= <-]. cbn [peers statuses arrays].
  rewrite insert_snoc. split; [apply lookup_snoc |].
  split; [by apply lookup_snoc_old |]. split; [| done].
  intros b w Hb. by apply lookup_snoc_old.
Qed.

(** Only a peer added with SSO login, and with login expiration
    enabled, is ever reported as expired, and then the time left is not
    positive.  A peer reported as not expired has a time left that is not
    negative, and zero only when it is exempt from expiration. *)
Theorem LoginExpired_only_SSO_expires (now : time.Time) (h : Heap) (p : addr)
    (d : time.Duration) (e : bool) (t : time.Duration) (h' : Heap) :
  LoginExpired now p d h = Some ((e, t), h') ->
  exists x, peers h !! p = Some x /\
    (e = true ->
       UserID x <> ""%string /\ LoginExpirationEnabled x = true /\ t <= 0) /\
    (e = false ->
       0 <= t /\
       (t = 0 -> UserID x = ""%string \/ LoginExpirationEnabled x = false)).
Proof.
  intros E. destruct (peers h !! p) as [x |] eqn:Hp.
  2: { revert E. unfold LoginExpired. unfold_M. by rewrite Hp. }
  exists x. split; [done |].
  rewrite (LoginExpired_run now h p x d Hp) in E.
  destruct (String.eqb_spec (UserID x) "") as [Hu | Hu];
    destruct (LoginExpirationEnabled x); cbn [negb orb] in E;
    injection E as <- <- <-; split; try done; try (intros _; split; [lia | auto]).
  - intros Ht. apply Z.leb_le in Ht. by repeat split.
  - intros Ht. apply Z.leb_gt in Ht. split; [lia |]. intros Hz. lia.
Qed.

(** ** The further properties on the store with one peer *)

Lemma nil_Status_panics_witness :
  MarkLoginExpired 0 true (mkHeap [set_Status None ex_peer] [] (arrays ex_heap))
  = None.
Proof.
  by destruct (nil_Status_panics a_clock
                 (mkHeap [set_Status None ex_peer] [] (arrays ex_heap))
                 0 (set_Status None ex_peer) true eq_refl eq_refl) as [H _].
Defined.

Lemma UpdateMetaIfNew_true_iff_changed_witness :
  exists b h', UpdateMetaIfNew 0 (set_UIVersion "" ex_meta) ex_heap = Some (b, h') /\
               (b = true <-> h' <> ex_heap).
Proof.
  destruct (UpdateMetaIfNew_true_iff_changed ex_heap 0 ex_peer
              (set_UIVersion "" ex_meta) eq_refl)
    as (b & h' & x' & Hrun & Hb & _).
  by exists b, h'.
Defined.

Lemma Copy_isolated_from_methods_witness :
  exists c h1, Copy 0 ex_heap = Some (c, h1) /\
    forall r h2, MarkLoginExpired c true h1 = Some (r, h2) ->
                 observe 0 h2 = observe 0 ex_heap.
Proof.
  destruct (Copy_isolated_from_methods a_clock ex_heap 0 ex_peer ex_meta true
              eq_refl) as (c & h1 & Hrun & _ & Hmark & _).
  - intros a [= <-]. by exists ex_status.
  - by exists c, h1.
Defined.

Lemma Copy_answers_alike_witness :
  exists c h1, Copy 0 ex_heap = Some (c, h1) /\
    fst <$> FQDN c "netbird.cloud" h1 = fst <$> FQDN 0 "netbird.cloud" ex_heap.
Proof.
  destruct (Copy_answers_alike a_clock ex_heap 0 ex_peer time.Hour
              "netbird.cloud" eq_refl) as (c & h1 & Hrun & _ & Hfqdn & _).
  - intros a [= <-]. by exists ex_status.
  - by exists c, h1.
Defined.

(** Expired, then not expired: the peer stays disconnected. *)
Lemma MarkLoginExpired_twice_witness :
  exists h2 x2 s2,
    (MarkLoginExpired 0 true ;;; MarkLoginExpired 0 false) ex_heap = Some (tt, h2) /\
    peers h2 !! 0%nat = Some x2 /\ load_status (Status x2) h2 = Some (s2, h2) /\
    Connected s2 = false /\ LoginExpired_flag s2 = false.
Proof.
  destruct (MarkLoginExpired_twice ex_heap 0 ex_peer 0 ex_status true false
              eq_refl eq_refl eq_refl)
    as (h2 & x2 & s2 & Hrun & Hx2 & Hs2 & -> & _).
  eexists h2, x2, _. by repeat split.
Defined.

Lemma UpdateLastLogin_restarts_expiration_witness :
  exists h1, UpdateLastLogin a_clock 0 ex_heap = Some (0%nat, h1) /\
             LoginExpired a_clock 0 time.Hour h1 = Some ((false, time.Hour), h1).
Proof.
  destruct (UpdateLastLogin_restarts_expiration a_clock a_clock ex_heap 0
              ex_peer 0 ex_status time.Hour eq_refl eq_refl eq_refl)
    as (h1 & Hrun & _ & Hnow); [discriminate | reflexivity |].
  exists h1. split; [exact Hrun |].
  apply Hnow; [reflexivity | reflexivity | split; discriminate].
Defined.

(** Expired on the clock, and so one hour later. *)
Lemma LoginExpired_monotone_witness :
  exists t', LoginExpired (time.Add a_clock time.Hour) 0 time.Hour ex_heap
             = Some ((true, t'), ex_heap).
Proof.
  destruct (LoginExpired_monotone a_clock (time.Add a_clock time.Hour) ex_heap 0
              time.Hour true
              (time.Sub (time.Add (LastLogin ex_peer) time.Hour) a_clock) ex_heap)
    as (e' & t' & Hrun & _ & He & _).
  - vm_compute. discriminate.
  - vm_compute. reflexivity.
  - exists t'. by rewrite <- (He eq_refl).
Defined.

(** Three reports, two of them without UI version. *)
Lemma UIVersion_never_erased_witness :
  exists bs h' x',
    report_all 0 [set_UIVersion "" ex_meta; set_UIVersion "1.3" ex_meta;
                  set_UIVersion "" ex_meta] ex_heap = Some (bs, h') /\
    peers h' !! 0%nat = Some x' /\ UIVersion (Meta x') <> ""%string.
Proof.
  destruct (UIVersion_never_erased
              [set_UIVersion "" ex_meta; set_UIVersion "1.3" ex_meta;
               set_UIVersion "" ex_meta] ex_heap 0 ex_peer eq_refl)
    as (bs & h' & x' & Hrun & _ & Hx' & Hne & _); [discriminate |].
  by exists bs, h', x'.
Defined.

Lemma EventMeta_entries_witness :
  exists m, EventMeta 0 "netbird.cloud" ex_heap = Some (m, ex_heap) /\
            m !! "fqdn"%string = Some (any_string "host-a.netbird.cloud") /\
            size m = 3%nat.
Proof.
  destruct (EventMeta_entries ex_heap 0 ex_peer "netbird.cloud" eq_refl)
    as (m & fqdn & Hrun & Hfqdn & _ & Hf & _ & _ & Hsize & _).
  exists m. split; [exact Hrun |]. split; [| exact Hsize].
  injection Hfqdn as <-. exact Hf.
Defined.

Lemma PeerStatus_Copy_fresh_witness :
  exists a' h', PeerStatus_Copy (Some 0%nat) ex_heap = Some (Some a', h') /\
                a' <> 0%nat /\ statuses h' !! a' = Some ex_status /\
                statuses h' !! 0%nat = Some ex_status /\
                length (statuses h') = 2%nat.
Proof.
  destruct (PeerStatus_Copy_fresh ex_heap 0 ex_status eq_refl)
    as (a' & h' & Hrun & Hne & _ & Hnew & Hold & _ & _ & Hlen & _).
  by exists a', h'.
Defined.

Lemma LoginExpired_only_SSO_expires_witness :
  exists x, peers ex_heap !! 0%nat = Some x /\ UserID x <> ""%string.
Proof.
  destruct (LoginExpired_only_SSO_expires a_clock ex_heap 0 time.Hour true
              (time.Sub (time.Add (LastLogin ex_peer) time.Hour) a_clock) ex_heap)
    as (x & Hx & He & _); [vm_compute; reflexivity |].
  exists x. split; [exact Hx |]. by destruct (He eq_refl).
Defined.
